(** * hello.cc: a native addon exporting one greeting function

    The addon consists of [demo::Method], the callback behind the
    exported function, and [demo::init], which installs it on the
    module's exports object; [NODE_MODULE(addon, init)] hands [init] to
    the loader.

    The three statements of [Method] go through the V8, NAN and C++
    standard library interfaces.  Those are embedded here by what their
    interfaces do, each in a module named after its namespace, and the
    addon's own two functions are then transcribed statement by
    statement in [Module demo].

    Conventions of the embedding:
    - text, on either side of the boundary, is a [string]: a sequence of
      bytes.  A [v8::String] is represented by the bytes that
      [String::Utf8Value] writes for it: its UTF-8 text, in which an
      unpaired surrogate appears as the three bytes of its own code
      point (ED A0..BF 80..BF).  These bytes are not well-formed UTF-8,
      and [String::NewFromUtf8] reads each such byte as U+FFFD.  U+0000
      is the single byte 0, so the NUL character and the NUL byte
      coincide;
    - the length of a string is limited by [String::kMaxLength], here
      that of a 64-bit build; failure to allocate memory is not
      represented;
    - the host's mutable state (heap, globals, whatever script code can
      reach) is an arbitrary type [W], threaded through every operation
      that may run script code;
    - script code may return, throw, bring the process down or run for
      ever, and so may a call of the addon that runs it. *)

From Stdlib Require Import Ascii ZArith.
From stdpp Require Import gmap strings list fin_maps.

(** ** Runs of native code against the host *)

Module Run.
Section world.
Context {W : Type}.

(** How a piece of code, started in some world, ends. *)
Inductive Outcome (A : Type) : Type :=
| Returns (a : A) (w : W)   (* normal completion with result [a], leaving world [w] *)
| Throws (w : W)            (* a JavaScript exception reaches the caller *)
| Aborts                    (* undefined behaviour or a fatal error: no result at all *)
| Diverges.                 (* the code never comes back *)

Definition M (A : Type) : Type := W → Outcome A.

Definition ret {A} (a : A) : M A := λ w, Returns A a w.

Definition bind {A B} (m : M A) (k : A → M B) : M B := λ w,
  match m w with
  | Returns _ a w' => k a w'
  | Throws _ w' => Throws B w'
  | Aborts _ => Aborts B
  | Diverges _ => Diverges B
  end.

Definition throw {A} : M A := λ w, Throws A w.
Definition abort {A} : M A := λ _, Aborts A.

(** Whether a run ended by returning to its caller. *)
Definition completes {A} (o : Outcome A) : bool :=
  match o with Returns _ _ _ => true | _ => false end.

End world.

Arguments Returns {W A} a w.
Arguments Throws {W A} w.
Arguments Aborts {W A}.
Arguments Diverges {W A}.

#[global] Instance M_ret {W} : MRet (@M W) := @ret W.
#[global] Instance M_bind {W} : MBind (@M W) := λ A B k m, bind m k.

End Run.

Import Run.

(** ** C strings and [std::string] *)

Module std.

Definition nul : ascii := "000"%char.

(** A [const char*] is either the null pointer or points at the bytes
    that remain in its buffer. *)
Definition c_str : Type := option string.

(** [strlen]: the number of bytes before the first NUL.  Running off the
    end of the buffer without meeting one is undefined behaviour ([None]). *)
Fixpoint strlen (buf : string) : option nat :=
  match buf with
  | EmptyString => None
  | String c buf' => if Ascii.eqb c nul then Some 0 else S <$> strlen buf'
  end.

(** [std::string(const char* s)]: copies [strlen(s)] bytes starting at
    [s].  A null [s] is undefined behaviour (libstdc++ raises
    [std::logic_error], which nothing catches). *)
Definition string_of_c_str {W} (s : c_str) : M (W:=W) string :=
  match s with
  | None => abort
  | Some buf =>
      match strlen buf with
      | None => abort
      | Some n => mret (String.substring 0 n buf)
      end
  end.

(** [operator+(const char*, const std::string&)], its left operand given
    as the literal's text. *)
Definition plus (lhs : string) (rhs : string) : string := lhs +:+ rhs.

End std.

(** ** UTF-8 as the runtime reads it *)

Module Utf8.

(** Whether byte [b] lies in the range [lo..hi]. *)
Definition byte_in (lo hi : N) (b : ascii) : bool :=
  ((lo <=? N_of_ascii b) && (N_of_ascii b <=? hi))%N.

(** A trailing byte, 80..BF. *)
Definition continuation : ascii → bool := byte_in 0x80 0xBF.

(** What a byte announces at the start of a sequence: a sequence of its
    own (00..7F), a sequence of two, three or four bytes, or nothing at
    all (80..C1 and F5..FF).  After the first byte of a sequence of
    three or four, the second one has to lie in [lo..hi], which rules
    out overlong forms, surrogates and code points above U+10FFFF. *)
Inductive Lead : Type :=
| Single
| Two
| Three (lo hi : N)
| Four (lo hi : N)
| Never.

Definition lead (b : ascii) : Lead :=
  let n := N_of_ascii b in
  if (n <=? 0x7F)%N then Single
  else if (n <? 0xC2)%N then Never
  else if (n <=? 0xDF)%N then Two
  else if (n =? 0xE0)%N then Three 0xA0 0xBF
  else if (n =? 0xED)%N then Three 0x80 0x9F
  else if (n <=? 0xEF)%N then Three 0x80 0xBF
  else if (n =? 0xF0)%N then Four 0x90 0xBF
  else if (n <=? 0xF3)%N then Four 0x80 0xBF
  else if (n =? 0xF4)%N then Four 0x80 0x8F
  else Never.

(** U+FFFD, the replacement character, in UTF-8 (EF BF BD), put before
    [rest]. *)
Definition replaced (rest : string) : string :=
  String "239" (String "191" (String "189" rest)).

(** Reading bytes as UTF-8, the result given as UTF-8 again.  A
    well-formed sequence is kept.  Where the bytes cannot go on as a
    sequence, what has been read of it, one byte at least, becomes one
    U+FFFD, and reading starts again at the byte that did not fit. *)
Fixpoint decode (data : string) : string :=
  match data with
  | EmptyString => EmptyString
  | String b0 r0 =>
      match lead b0 with
      | Single => String b0 (decode r0)
      | Never => replaced (decode r0)
      | Two =>
          match r0 with
          | String b1 r1 =>
              if continuation b1 then String b0 (String b1 (decode r1))
              else replaced (decode r0)
          | EmptyString => replaced EmptyString
          end
      | Three lo hi =>
          match r0 with
          | String b1 r1 =>
              if byte_in lo hi b1 then
                match r1 with
                | String b2 r2 =>
                    if continuation b2
                    then String b0 (String b1 (String b2 (decode r2)))
                    else replaced (decode r1)
                | EmptyString => replaced EmptyString
                end
              else replaced (decode r0)
          | EmptyString => replaced EmptyString
          end
      | Four lo hi =>
          match r0 with
          | String b1 r1 =>
              if byte_in lo hi b1 then
                match r1 with
                | String b2 r2 =>
                    if continuation b2 then
                      match r2 with
                      | String b3 r3 =>
                          if continuation b3
                          then String b0 (String b1 (String b2 (String b3 (decode r3))))
                          else replaced (decode r2)
                      | EmptyString => replaced EmptyString
                      end
                    else replaced (decode r1)
                | EmptyString => replaced EmptyString
                end
              else replaced (decode r0)
          | EmptyString => replaced EmptyString
          end
      end
  end.

End Utf8.

(** ** The V8 interface used by the addon *)

Module v8.
Section world.
Context {W : Type}.

(** A [Local<T>] handle is either empty or refers to a [T]. *)
Definition Local (T : Type) : Type := option T.

(** Primitive values.  How a Number or a BigInt is printed is the
    runtime's business (for a Number the shortest digits that read back
    as the same value, in exponent form from 1e21 on, or NaN, Infinity,
    -Infinity) and is not reproduced: such a value is given by the
    text its [toString] prints. *)
Inductive Primitive : Type :=
| Undefined
| Null
| Boolean (b : bool)
| Number (text : string)
| BigInt (text : string)
| String (s : string)
| Symbol.

(** A value is a primitive or an object.  All the addon ever does with
    an object is convert it, so an object is represented by its
    [ToPrimitive] with hint String: script code ([toString], [valueOf])
    that runs in the host's world and may change it, and that yields a
    primitive, throws, brings the process down or never returns.  An
    object created by [Object.create(null)] has neither method, and its
    conversion throws. *)
Inductive Value : Type :=
| Prim (p : Primitive)
| Object (ToPrimitive : W → Outcome (W:=W) Primitive).

(** ECMAScript [ToString] on primitives.  A Symbol has no string
    conversion: the runtime raises a TypeError. *)
Definition PrimitiveToString (p : Primitive) : option string :=
  match p with
  | Undefined => Some "undefined"
  | Null => Some "null"
  | Boolean true => Some "true"
  | Boolean false => Some "false"
  | Number text => Some text
  | BigInt text => Some text
  | String s => Some s
  | Symbol => None
  end.

(** [Local<String> Value::ToString()], the overload without a context:
    the handle is empty when the conversion threw. *)
Definition ToString (v : Value) : M (W:=W) (Local string) := λ w,
  match v with
  | Prim p => Returns (PrimitiveToString p) w
  | Object ToPrimitive =>
      match ToPrimitive w with
      | Returns p w' => Returns (PrimitiveToString p) w'
      | Throws w' => Returns None w'
      | Aborts => Aborts
      | Diverges => Diverges
      end
  end.

(** The implicit conversion of a [Local<String>] to a [Local<Value>]. *)
Definition as_Value (str : Local string) : Local Value :=
  (λ s, Prim (String s)) <$> str.

(** [String::Utf8Value]: a buffer [str_] holding the UTF-8 text of the
    converted value followed by a terminating NUL, and its [length_]
    without the terminator. *)
Record Utf8Value : Type := { str_ : std.c_str; length_ : nat }.

(** The constructor [Utf8Value(Local<Value> obj)].  It leaves [str_]
    null when [obj] is empty or when converting [obj] throws (the
    exception is caught inside). *)
Definition Utf8Value_new (obj : Local Value) : M (W:=W) Utf8Value :=
  match obj with
  | None => mret {| str_ := None; length_ := 0 |}
  | Some v =>
      str ← ToString v;
      match str with
      | None => mret {| str_ := None; length_ := 0 |}
      | Some s =>
          mret {| str_ := Some (s +:+ String.String std.nul "");
                  length_ := String.length s |}
      end
  end.

(** [char* Utf8Value::operator*()]. *)
Definition deref (u : Utf8Value) : std.c_str := str_ u.

(** [FunctionCallbackInfo<Value>]: the actual arguments of a call and
    the slot its return value is written to. *)
Record FunctionCallbackInfo : Type :=
  { values_ : list Value; return_value : Value }.

(** [Local<Value> operator[](int i)]: the [i]-th argument, and
    [undefined] when [i] is out of range. *)
Definition at_ (args : FunctionCallbackInfo) (i : Z) : Value :=
  if bool_decide (i < 0 ∨ Z.of_nat (length (values_ args)) ≤ i)%Z
  then Prim Undefined
  else default (Prim Undefined) (values_ args !! Z.to_nat i).

(** [args.GetReturnValue().Set(handle)]. *)
Definition ReturnValue_Set (args : FunctionCallbackInfo) (handle : Value)
  : FunctionCallbackInfo :=
  {| values_ := values_ args; return_value := handle |}.

(** [MaybeLocal<T>::ToLocalChecked()]: a fatal error on an empty handle. *)
Definition ToLocalChecked {T} (m : Local T) : M (W:=W) T :=
  match m with
  | Some v => mret v
  | None => abort
  end.

(** [internal::kApiSystemPointerSize], of a 64-bit build. *)
Definition kApiSystemPointerSize : N := 8.

(** [String::kMaxLength], as [v8.h] gives it. *)
Definition kMaxLength : N :=
  if (kApiSystemPointerSize =? 4)%N then 2 ^ 28 - 16 else 2 ^ 29 - 24.

(** [String::NewFromUtf8(isolate, data, type, length)]: empty when
    [length], the number of bytes at [data], is above [kMaxLength], and
    otherwise the string those bytes decode to. *)
Definition NewFromUtf8 (data : string) : Local string :=
  if (N.of_nat (String.length data) <=? kMaxLength)%N
  then Some (Utf8.decode data)
  else None.

(** A native function object: its name and the callback it runs. *)
Record Function : Type :=
  { fn_name : string;
    fn_callback : FunctionCallbackInfo → M (W:=W) FunctionCallbackInfo }.

(** Calling a native function: the callback runs on a fresh
    [FunctionCallbackInfo] whose return value slot holds [undefined],
    and the call's value is what the slot holds afterwards. *)
Definition Call (f : Function) (argv : list Value) : M (W:=W) Value :=
  info ← fn_callback f {| values_ := argv; return_value := Prim Undefined |};
  mret (return_value info).

End world.

Arguments Primitive : clear implicits.
Arguments Value : clear implicits.
Arguments FunctionCallbackInfo : clear implicits.
Arguments Function : clear implicits.

End v8.

(** ** NAN *)

Module Nan.

(** [Nan::New(std::string)]: a [MaybeLocal<String>] made by
    [String::NewFromUtf8] from the string's [data()] and [size()], so
    every byte of [value] is taken, whatever it is. *)
Definition New (value : string) : v8.Local string := v8.NewFromUtf8 value.

End Nan.

(** ** The module loader of node *)

Module node.
Section world.
Context {W : Type}.

(** The exports object is the one the loader makes: an ordinary object
    with no property of its own, on which storing a property adds or
    replaces a plain data property.  It is seen through its own
    properties, a [gmap] from names to values; the only values the
    addon ever stores are native functions.  Property attributes,
    accessors and the prototype chain, which such an object does not
    use for the names the addon stores, are not represented. *)

(** [NODE_SET_METHOD(recv, name, callback)]: makes a function from
    [callback], names it [name] and stores it in [recv] under [name]. *)
Definition NODE_SET_METHOD (recv : gmap string (v8.Function W)) (name : string)
    (callback : v8.FunctionCallbackInfo W → M (W:=W) (v8.FunctionCallbackInfo W))
  : gmap string (v8.Function W) :=
  let fn := {| v8.fn_name := name; v8.fn_callback := callback |} in
  <[name := fn]> recv.

(** [NODE_MODULE(modname, regfunc)]: the module descriptor that the
    shared object registers when it is loaded. *)
Record node_module : Type :=
  { nm_modname : string;
    nm_register_func : gmap string (v8.Function W) → gmap string (v8.Function W) }.

Definition NODE_MODULE (modname : string)
    (regfunc : gmap string (v8.Function W) → gmap string (v8.Function W))
  : node_module :=
  {| nm_modname := modname; nm_register_func := regfunc |}.

(** Loading a module: the register function runs once on the new, empty
    exports object, and the object it leaves is what [require] returns. *)
Definition load (mp : node_module) : gmap string (v8.Function W) :=
  nm_register_func mp ∅.

(** The script-side call [exports.name(argv...)], for a [name] that the
    prototypes of the exports object do not define, as is the case of
    the one name the addon stores.  Calling a property that is not
    there raises a TypeError. *)
Definition call_method (exports : gmap string (v8.Function W)) (name : string)
    (argv : list (v8.Value W)) : M (W:=W) (v8.Value W) :=
  match exports !! name with
  | Some fn => v8.Call fn argv
  | None => throw
  end.

End world.
End node.

(** ** The addon *)

Module demo.
Section world.
Context {W : Type}.

(** [void Method(const FunctionCallbackInfo<Value>& args)] *)
Definition Method (args : v8.FunctionCallbackInfo W)
  : M (W:=W) (v8.FunctionCallbackInfo W) :=
  str ← v8.ToString (v8.at_ args 0);
  nameFromArgs ← v8.Utf8Value_new (v8.as_Value str);
  name ← std.string_of_c_str (v8.deref nameFromArgs);
  let response := std.plus "hello " name in
  handle ← v8.ToLocalChecked (Nan.New response);
  mret (v8.ReturnValue_Set args (v8.Prim (v8.String handle))).

(** [void init(Local<Object> exports)] *)
Definition init (exports : gmap string (v8.Function W))
  : gmap string (v8.Function W) :=
  node.NODE_SET_METHOD exports "hello" Method.

(** [NODE_MODULE(addon, init)] *)
Definition addon : node.node_module (W:=W) := node.NODE_MODULE "addon" init.

(** What a script gets from [require] of the addon, and the call
    [require(...).hello(argv...)]. *)
Definition exports : gmap string (v8.Function W) := node.load addon.

Definition hello (argv : list (v8.Value W)) : M (W:=W) (v8.Value W) :=
  node.call_method exports "hello" argv.

End world.
End demo.

(** ** Notions used in the statements *)

(** Whether a text contains the NUL character. *)
Fixpoint contains_nul (s : string) : bool :=
  match s with
  | EmptyString => false
  | String c s' => Ascii.eqb c std.nul || contains_nul s'
  end.

(** The part of a text before its first NUL; all of it when it has none. *)
Fixpoint before_nul (s : string) : string :=
  match s with
  | EmptyString => EmptyString
  | String c s' => if Ascii.eqb c std.nul then EmptyString else String c (before_nul s')
  end.

(** Whether a text is well-formed UTF-8: one sequence after another,
    each of one to four bytes, in shortest form, of a code point that
    is no surrogate and no higher than U+10FFFF.  These are the texts of
    the strings in which every surrogate is paired. *)
Fixpoint well_formed (s : string) : bool :=
  match s with
  | EmptyString => true
  | String b0 r0 =>
      match Utf8.lead b0 with
      | Utf8.Single => well_formed r0
      | Utf8.Never => false
      | Utf8.Two =>
          match r0 with
          | String b1 r1 => Utf8.continuation b1 && well_formed r1
          | _ => false
          end
      | Utf8.Three lo hi =>
          match r0 with
          | String b1 (String b2 r2) =>
              Utf8.byte_in lo hi b1 && Utf8.continuation b2 && well_formed r2
          | _ => false
          end
      | Utf8.Four lo hi =>
          match r0 with
          | String b1 (String b2 (String b3 r3)) =>
              Utf8.byte_in lo hi b1 && Utf8.continuation b2
              && Utf8.continuation b3 && well_formed r3
          | _ => false
          end
      end
  end.

(** Whether the greeting made of "hello " and the text [t] is within the
    length the runtime allows a string: [t] has at most
    [kMaxLength - 6] bytes. *)
Definition fits (t : string) : bool :=
  (N.of_nat (String.length ("hello " +:+ t)) <=? v8.kMaxLength)%N.

(** The text of [n] characters [c], as [c.repeat(n)] makes it. *)
Fixpoint repeated (n : nat) (c : ascii) : string :=
  match n with
  | O => EmptyString
  | S n' => String c (repeated n' c)
  end.


(** * Properties *)

(** ** Texts and their NUL characters *)

Section strings.

Lemma contains_nul_app (s t : string) :
  contains_nul (s +:+ t) = contains_nul s || contains_nul t.
Proof.
  induction s as [|c s IH]; simpl; [done|].
  by rewrite IH, orb_assoc.
Qed.

Lemma before_nul_id (s : string) : contains_nul s = false → before_nul s = s.
Proof.
  induction s as [|c s IH]; simpl; [done|].
  intros [Hc Hs]%orb_false_elim. rewrite Hc. by rewrite IH.
Qed.

Lemma before_nul_app (p rest : string) :
  contains_nul p = false → before_nul (p +:+ String std.nul rest) = p.
Proof.
  induction p as [|c p IH]; simpl; [done|].
  intros [Hc Hp]%orb_false_elim. rewrite Hc. by rewrite IH.
Qed.

(** What follows a NUL has no part in what precedes the first one. *)
Lemma before_nul_app_nul (p rest : string) :
  before_nul (p +:+ String std.nul rest) = before_nul p.
Proof.
  induction p as [|c p IH]; simpl; [done|].
  destruct (Ascii.eqb c std.nul); [done|]. by rewrite IH.
Qed.

(** A text with a NUL in it splits at the first one. *)
Lemma contains_nul_split (s : string) :
  contains_nul s = true →
  ∃ p rest : string, s = p +:+ String std.nul rest ∧ contains_nul p = false.
Proof.
  induction s as [|c s IH]; simpl; [done|].
  destruct (Ascii.eqb_spec c std.nul) as [->|Hc]; simpl.
  - intros _. by exists "", s.
  - intros (p & rest & -> & Hp)%IH. exists (String c p), rest.
    split; [done|]. simpl. by destruct (Ascii.eqb_spec c std.nul).
Qed.

Lemma before_nul_clean (s : string) : contains_nul (before_nul s) = false.
Proof.
  induction s as [|c s IH]; simpl; [done|].
  destruct (Ascii.eqb c std.nul) eqn:Hc; simpl; [done|].
  by rewrite Hc, IH.
Qed.

Lemma before_nul_length (s : string) :
  String.length (before_nul s) ≤ String.length s.
Proof.
  induction s as [|c s IH]; simpl; [done|].
  destruct (Ascii.eqb c std.nul); simpl; lia.
Qed.

(** Reading a NUL-terminated buffer stops at the first NUL, which may
    come before the terminator. *)
Lemma strlen_terminated (s tail : string) :
  std.strlen (s +:+ String std.nul tail) = Some (String.length (before_nul s)).
Proof.
  induction s as [|c s IH]; simpl; [done|].
  destruct (Ascii.eqb c std.nul); simpl; [done|].
  by rewrite IH.
Qed.

Lemma substring_before_nul (s tail : string) :
  String.substring 0 (String.length (before_nul s)) (s +:+ tail) = before_nul s.
Proof.
  induction s as [|c s IH]; simpl.
  - by destruct tail.
  - destruct (Ascii.eqb c std.nul); simpl; [done|]. by rewrite IH.
Qed.

Lemma string_of_c_str_terminated {W} (s : string) (w : W) :
  std.string_of_c_str (Some (s +:+ String std.nul "")) w = Returns (before_nul s) w.
Proof.
  unfold std.string_of_c_str.
  by rewrite strlen_terminated, substring_before_nul.
Qed.

Lemma length_hello (t : string) :
  String.length ("hello " +:+ t) = 6 + String.length t.
Proof. reflexivity. Qed.

Lemma fits_le (t : string) :
  fits t = true ↔ (6 + N.of_nat (String.length t) ≤ v8.kMaxLength)%N.
Proof.
  unfold fits. rewrite length_hello, N.leb_le. lia.
Qed.

(** A text that fits still does when cut at a NUL. *)
Lemma fits_before_nul (s : string) : fits s = true → fits (before_nul s) = true.
Proof.
  rewrite !fits_le. pose proof (before_nul_length s). lia.
Qed.

Lemma repeated_length (n : nat) (c : ascii) : String.length (repeated n c) = n.
Proof. induction n as [|n IH]; simpl; [done|]. by rewrite IH. Qed.

Lemma repeated_nul_free (n : nat) (c : ascii) :
  Ascii.eqb c std.nul = false → contains_nul (repeated n c) = false.
Proof. intros Hc. induction n as [|n IH]; simpl; [done|]. by rewrite Hc, IH. Qed.

Lemma repeated_well_formed (n : nat) (c : ascii) :
  Utf8.lead c = Utf8.Single → well_formed (repeated n c) = true.
Proof. intros Hc. induction n as [|n IH]; simpl; [done|]. by rewrite Hc. Qed.

End strings.

(** ** Decoding *)

Section decoding.

Lemma string_length_ind (P : string → Prop) :
  (∀ s, (∀ t, String.length t < String.length s → P t) → P s) → ∀ s, P s.
Proof.
  intros step s. remember (String.length s) as n eqn:Hn.
  revert s Hn. induction (lt_wf n) as [n _ IH]. intros s ->.
  apply step. intros t Ht. by apply (IH (String.length t)).
Qed.

Lemma well_formed_replaced (r : string) :
  well_formed (Utf8.replaced r) = well_formed r.
Proof. reflexivity. Qed.

Lemma contains_nul_replaced (r : string) :
  contains_nul (Utf8.replaced r) = contains_nul r.
Proof. reflexivity. Qed.


(** The case analysis that [decode] makes on the head of its input,
    with the induction hypothesis for every shorter text. *)
Ltac decode_cases s IH :=
  induction s as [s IH] using string_length_ind;
  destruct s as [|b0 r0]; [done|]; cbn [Utf8.decode];
  repeat case_match; simplify_eq.

(** Decoding keeps a well-formed text as it is. *)
Lemma decode_well_formed (s : string) : well_formed s = true → Utf8.decode s = s.
Proof.
  induction s as [s IH] using string_length_ind.
  destruct s as [|b0 r0]; [done|]. simpl.
  repeat case_match; simplify_eq/=; try done;
    rewrite ?andb_true_iff; intros; destruct_and?; try congruence;
    rewrite IH; simpl; auto with lia.
Qed.

(** What decoding yields is well-formed, whatever the bytes. *)
Lemma decode_is_well_formed (s : string) : well_formed (Utf8.decode s) = true.
Proof.
  decode_cases s IH; rewrite ?well_formed_replaced; try done;
    cbn [well_formed];
    repeat match goal with H : Utf8.lead _ = _ |- _ => rewrite H; clear H end;
    rewrite ?andb_true_iff; repeat split; try done;
    apply IH; cbn [String.length]; lia.
Qed.

(** Decoding makes no NUL of its own. *)
Lemma decode_nul_free (s : string) :
  contains_nul s = false → contains_nul (Utf8.decode s) = false.
Proof.
  decode_cases s IH;
    rewrite ?contains_nul_replaced; cbn [contains_nul];
    rewrite ?orb_false_iff; intros; destruct_and?;
    repeat split; try done; apply IH; cbn [contains_nul String.length];
    rewrite ?orb_false_iff; auto with lia.
Qed.


Lemma decode_hello (t : string) :
  Utf8.decode ("hello " +:+ t) = "hello " +:+ Utf8.decode t.
Proof. reflexivity. Qed.


End decoding.

(** ** The callback *)

Section callback.
Context {W : Type}.
Implicit Types (w : W) (s c : string) (v : v8.Value W) (argv : list (v8.Value W)).
Implicit Types (args : v8.FunctionCallbackInfo W).

Lemma at_0 argv (r : v8.Value W) :
  v8.at_ {| v8.values_ := argv; v8.return_value := r |} 0
  = default (v8.Prim v8.Undefined) (head argv).
Proof. by destruct argv. Qed.

(** Converting a value never leaves with an exception: it yields a
    handle, maybe empty, unless the script code it runs brings the
    process down or never returns. *)
Lemma ToString_cases v w :
  (∃ (r : v8.Local string) (w' : W), v8.ToString v w = Returns r w')
  ∨ v8.ToString v w = Aborts
  ∨ v8.ToString v w = Diverges.
Proof.
  destruct v as [p|conv]; simpl; [by eauto|].
  destruct (conv w); by eauto.
Qed.

Lemma ToString_String s w :
  v8.ToString (v8.Prim (v8.String s)) w = Returns (Some s) w.
Proof. done. Qed.

(** When the argument converts to [c], the slot receives the prefix
    followed by what [c] up to its first NUL decodes to, provided the
    whole is not too long for a string. *)
Lemma Method_converted args w w' c :
  v8.ToString (v8.at_ args 0) w = Returns (Some c) w' →
  demo.Method args w
  = if fits (before_nul c)
    then Returns (v8.ReturnValue_Set args
                    (v8.Prim (v8.String ("hello " +:+ Utf8.decode (before_nul c))))) w'
    else Aborts.
Proof.
  intros Hc. unfold demo.Method, mbind, M_bind, bind. rewrite Hc. simpl.
  unfold mbind, M_bind, bind. simpl.
  rewrite strlen_terminated, substring_before_nul.
  unfold mret, M_ret, ret, Nan.New, v8.NewFromUtf8, std.plus, fits.
  by destruct (_ <=? _)%N.
Qed.

(** When the conversion throws, the null [char*] reaches [std::string]. *)
Lemma Method_unconverted args w w' :
  v8.ToString (v8.at_ args 0) w = Returns None w' →
  demo.Method args w = Aborts.
Proof.
  intros Hc. unfold demo.Method, mbind, M_bind, bind. by rewrite Hc.
Qed.

Lemma Method_aborted args w :
  v8.ToString (v8.at_ args 0) w = Aborts → demo.Method args w = Aborts.
Proof.
  intros Hc. unfold demo.Method, mbind, M_bind, bind. by rewrite Hc.
Qed.

Lemma Method_diverged args w :
  v8.ToString (v8.at_ args 0) w = Diverges → demo.Method args w = Diverges.
Proof.
  intros Hc. unfold demo.Method, mbind, M_bind, bind. by rewrite Hc.
Qed.

Lemma exports_hello :
  demo.exports (W:=W) !! "hello"
  = Some {| v8.fn_name := "hello"; v8.fn_callback := demo.Method |}.
Proof.
  unfold demo.exports, node.load, demo.addon, node.NODE_MODULE, demo.init,
    node.NODE_SET_METHOD; simpl.
  apply lookup_insert_eq.
Qed.

Lemma hello_Method argv w :
  demo.hello argv w
  = match demo.Method {| v8.values_ := argv; v8.return_value := v8.Prim v8.Undefined |} w with
    | Returns info w' => Returns (v8.return_value info) w'
    | Throws w' => Throws w'
    | Aborts => Aborts
    | Diverges => Diverges
    end.
Proof.
  unfold demo.hello, node.call_method. rewrite exports_hello.
  unfold v8.Call, mbind, M_bind, bind; simpl.
  by destruct (demo.Method _ w).
Qed.

Lemma hello_converted argv w w' c :
  v8.ToString (default (v8.Prim v8.Undefined) (head argv)) w = Returns (Some c) w' →
  demo.hello argv w
  = if fits (before_nul c)
    then Returns (v8.Prim (v8.String ("hello " +:+ Utf8.decode (before_nul c)))) w'
    else Aborts.
Proof.
  intros Hc. rewrite hello_Method.
  rewrite (Method_converted _ w w' c) by (by rewrite at_0).
  by destruct (fits _).
Qed.

Lemma hello_unconverted argv w w' :
  v8.ToString (default (v8.Prim v8.Undefined) (head argv)) w = Returns None w' →
  demo.hello argv w = Aborts.
Proof.
  intros Hc. rewrite hello_Method.
  by rewrite (Method_unconverted _ w w'); [|rewrite at_0].
Qed.

Lemma hello_aborted argv w :
  v8.ToString (default (v8.Prim v8.Undefined) (head argv)) w = Aborts →
  demo.hello argv w = Aborts.
Proof.
  intros Hc. rewrite hello_Method.
  by rewrite Method_aborted; [|rewrite at_0].
Qed.

Lemma hello_diverged argv w :
  v8.ToString (default (v8.Prim v8.Undefined) (head argv)) w = Diverges →
  demo.hello argv w = Diverges.
Proof.
  intros Hc. rewrite hello_Method.
  by rewrite Method_diverged; [|rewrite at_0].
Qed.

(** The call on a string, in full. *)
Lemma hello_String s argv w :
  demo.hello (v8.Prim (v8.String s) :: argv) w
  = if fits (before_nul s)
    then Returns (v8.Prim (v8.String ("hello " +:+ Utf8.decode (before_nul s)))) w
    else Aborts.
Proof. by apply hello_converted. Qed.

(** The call on a string that fits and is well-formed up to its first
    NUL. *)
Lemma hello_String_plain s argv w :
  fits (before_nul s) = true →
  well_formed (before_nul s) = true →
  demo.hello (v8.Prim (v8.String s) :: argv) w
  = Returns (v8.Prim (v8.String ("hello " +:+ before_nul s))) w.
Proof.
  intros Hfit Hwf. by rewrite hello_String, Hfit, decode_well_formed.
Qed.

(** The call on [n] letters a: it returns up to the longest greeting
    that is a string, and aborts from there on. *)
Lemma hello_repeated (n : nat) w :
  demo.hello [v8.Prim (v8.String (repeated n "a"))] w
  = if (6 + N.of_nat n <=? v8.kMaxLength)%N
    then Returns (v8.Prim (v8.String ("hello " +:+ repeated n "a"))) w
    else Aborts.
Proof.
  rewrite hello_String.
  rewrite (before_nul_id (repeated n "a")) by (by apply repeated_nul_free).
  rewrite (decode_well_formed (repeated n "a")) by (by apply repeated_well_formed).
  unfold fits. by rewrite length_hello, repeated_length, Nat2N.inj_add.
Qed.

End callback.

(** ** Registration *)

Section registration.
Context {W : Type}.

(** What loading leaves on the exports object: the one function. *)
Lemma load_addon :
  node.load (W:=W) demo.addon
  = {[ "hello" := {| v8.fn_name := "hello"; v8.fn_callback := demo.Method |} ]}.
Proof.
  unfold node.load, demo.addon, node.NODE_MODULE, demo.init,
    node.NODE_SET_METHOD; simpl.
  apply insert_empty.
Qed.

End registration.

(** ** Arguments of every kind *)

Section arguments.
Context {W : Type}.
Implicit Types (w : W) (argv : list (v8.Value W)).

(** How a call ends, by how the conversion of its first argument ends. *)
Lemma hello_cases argv w :
  (∃ (c : string) (w' : W),
      v8.ToString (default (v8.Prim v8.Undefined) (head argv)) w = Returns (Some c) w'
      ∧ fits (before_nul c) = true
      ∧ demo.hello argv w
        = Returns (v8.Prim (v8.String ("hello " +:+ Utf8.decode (before_nul c)))) w')
  ∨ (demo.hello argv w = Aborts
     ∧ ((∃ (c : string) (w' : W),
           v8.ToString (default (v8.Prim v8.Undefined) (head argv)) w
           = Returns (Some c) w'
           ∧ fits (before_nul c) = false)
        ∨ (∃ w' : W,
             v8.ToString (default (v8.Prim v8.Undefined) (head argv)) w
             = Returns None w')
        ∨ v8.ToString (default (v8.Prim v8.Undefined) (head argv)) w = Aborts))
  ∨ (demo.hello argv w = Diverges
     ∧ v8.ToString (default (v8.Prim v8.Undefined) (head argv)) w = Diverges).
Proof.
  destruct (ToString_cases (default (v8.Prim v8.Undefined) (head argv)) w)
    as [([c|] & w' & Hc)|[Hc|Hc]].
  - rewrite (hello_converted argv w w' c Hc).
    destruct (fits (before_nul c)) eqn:Hfit.
    + left. by exists c, w'.
    + right; left. split; [done|]. left. by exists c, w'.
  - right; left. split; [by apply (hello_unconverted _ w w')|].
    right; left. by exists w'.
  - right; left. split; [by apply hello_aborted|]. by right; right.
  - right; right. split; [by apply hello_diverged|done].
Qed.

(** A returned value is the greeting for some text without NUL that
    decoding made. *)
Lemma hello_returned argv w (r : v8.Value W) (w' : W) :
  demo.hello argv w = Returns r w' →
  ∃ c : string,
    r = v8.Prim (v8.String ("hello " +:+ Utf8.decode (before_nul c))).
Proof.
  destruct (hello_cases argv w) as [(c & w1 & _ & _ & ->)|[[-> _]|[-> _]]];
    [|done..].
  intros [= <- _]. by exists c.
Qed.

Lemma hello_null w :
  demo.hello [v8.Prim v8.Null] w = Returns (v8.Prim (v8.String "hello null")) w.
Proof. by rewrite (hello_converted _ w w "null"). Qed.

Lemma hello_boolean (b : bool) w :
  demo.hello [v8.Prim (v8.Boolean b)] w
  = Returns (v8.Prim (v8.String (if b then "hello true" else "hello false"))) w.
Proof.
  destruct b;
    [by rewrite (hello_converted _ w w "true")|by rewrite (hello_converted _ w w "false")].
Qed.

End arguments.

(** A Number is greeted by the text the runtime prints for it. *)
Example hello_large_number :
  demo.hello [v8.Prim (v8.Number "1e+21")] tt
  = Returns (v8.Prim (v8.String "hello 1e+21")) tt.
Proof. reflexivity. Qed.

(** An object argument runs script code, which may change the host: here
    a [toString] that counts its calls in a world made of one counter. *)
Example hello_counting_object :
  demo.hello [v8.Object (λ n : nat, Returns (v8.String "obj") (S n))] 0
  = Returns (v8.Prim (v8.String "hello obj")) 1.
Proof. reflexivity. Qed.

(** An object without [toString] and [valueOf], as [Object.create(null)]
    makes, cannot be converted. *)
Example hello_bare_object :
  demo.hello [v8.Object (λ w : unit, Throws w)] tt = Aborts.
Proof. reflexivity. Qed.

(** An object whose [toString] never returns. *)
Example hello_looping_object :
  demo.hello [v8.Object (λ w : unit, Diverges)] tt = Diverges.
Proof. reflexivity. Qed.

(** Arguments after the first are ignored. *)
Example hello_two_arguments :
  demo.hello [v8.Prim (v8.String "a"); v8.Prim (v8.String "b")] tt
  = Returns (v8.Prim (v8.String "hello a")) tt.
Proof. reflexivity. Qed.

(** U+D800 alone, as [Utf8Value] writes it, and what the call makes of
    it: three times U+FFFD. *)
Example hello_lone_surrogate :
  demo.hello [v8.Prim (v8.String (String "237" (String "160" (String "128" ""))))] tt
  = Returns (v8.Prim (v8.String
      ("hello " +:+ Utf8.replaced (Utf8.replaced (Utf8.replaced ""))))) tt.
Proof. reflexivity. Qed.

(** The longest string of letters a that is greeted: with one more the
    call aborts. *)
Example hello_longest_string :
  demo.hello [v8.Prim (v8.String (repeated (N.to_nat 536870882) "a"))] tt
  = Returns (v8.Prim (v8.String
      ("hello " +:+ repeated (N.to_nat 536870882) "a"))) tt.
Proof.
  rewrite hello_repeated, N2Nat.id.
  assert ((6 + 536870882 <=? v8.kMaxLength)%N = true) as -> by reflexivity.
  reflexivity.
Qed.

(** ** The greeting function as scripts see it *)

(** C1, as the code has it: for every string [s] that contains no NUL
    character, has no unpaired surrogate (its text is well-formed UTF-8)
    and whose text has at most [kMaxLength] - 6 bytes, calling the
    exported function with [s] returns the string made of the prefix
    "hello " followed by [s]. *)
Theorem hello_concat_nul_free {W : Type} (s : string) (w : W) :
  contains_nul s = false →
  well_formed s = true →
  fits s = true →
  demo.hello [v8.Prim (v8.String s)] w
  = Returns (v8.Prim (v8.String ("hello " +:+ s))) w.
Proof.
  intros Hs Hwf Hfit.
  rewrite hello_String_plain; rewrite (before_nul_id s Hs); done.
Qed.

Lemma hello_concat_nul_free_witness :
  contains_nul "node" = false
  ∧ well_formed "node" = true
  ∧ fits "node" = true
  ∧ demo.hello [v8.Prim (v8.String "node")] tt
    = Returns (v8.Prim (v8.String "hello node")) tt.
Proof.
  split_and!; [reflexivity..|].
  apply (@hello_concat_nul_free unit "node" tt); reflexivity.
Defined.

(** C1 as stated fails on a string with a NUL inside: called with the
    three characters a, NUL, b the function returns "hello a", not the
    prefix followed by all three. *)
Lemma hello_concat_fails_on_nul :
  demo.hello [v8.Prim (v8.String ("a" +:+ String std.nul "b"))] tt
  = Returns (v8.Prim (v8.String "hello a")) tt
  ∧ demo.hello [v8.Prim (v8.String ("a" +:+ String std.nul "b"))] tt
    ≠ Returns (v8.Prim (v8.String ("hello " +:+ ("a" +:+ String std.nul "b")))) tt.
Proof.
  split; [reflexivity|]. vm_compute. discriminate.
Qed.

(** C2, as the code has it: for every string argument whose text before
    its first NUL (all of it, when it has none) has at most
    [kMaxLength] - 6 bytes, the call completes normally: it neither
    throws nor aborts. *)
Theorem hello_string_completes {W : Type} (s : string) (w : W) :
  fits (before_nul s) = true →
  completes (demo.hello [v8.Prim (v8.String s)] w) = true.
Proof. intros Hfit. by rewrite hello_String, Hfit. Qed.

Lemma hello_string_completes_witness :
  fits (before_nul "node") = true
  ∧ completes (demo.hello [v8.Prim (v8.String "node")] tt) = true.
Proof.
  split; [reflexivity|].
  apply (@hello_string_completes unit "node" tt). reflexivity.
Defined.

(** C2 as stated fails on a long string: called with 536870883 letters
    a, which makes a greeting of 536870889 bytes, one more than
    [kMaxLength], the function does not complete; [ToLocalChecked]
    aborts. *)
Lemma hello_long_string_aborts :
  demo.hello [v8.Prim (v8.String (repeated (N.to_nat 536870883) "a"))] tt = Aborts
  ∧ completes
      (demo.hello [v8.Prim (v8.String (repeated (N.to_nat 536870883) "a"))] tt)
    = false.
Proof.
  rewrite hello_repeated, N2Nat.id.
  assert ((6 + 536870883 <=? v8.kMaxLength)%N = false) as -> by reflexivity.
  split; reflexivity.
Qed.

(** C3: loading the module leaves the greeting function, made from
    [Method], on the exports object under the name "hello", and "hello"
    is the only property the exports object has. *)
Theorem load_exports_only_hello {W : Type} :
  node.load (W:=W) demo.addon !! "hello"
  = Some {| v8.fn_name := "hello"; v8.fn_callback := demo.Method |}
  ∧ dom (node.load (W:=W) demo.addon) = {["hello"]}.
Proof.
  rewrite load_addon. split; [apply lookup_singleton_eq|apply dom_singleton_L].
Qed.

(** C4, as the code has it: for every input string that contains a NUL
    character, made of some [p] without NUL, then NUL, then any [rest],
    where [p] has no unpaired surrogate and at most [kMaxLength] - 6
    bytes of text, the function returns "hello " followed by [p]
    alone. *)
Theorem hello_truncates_at_nul {W : Type} (p rest : string) (w : W) :
  contains_nul p = false →
  well_formed p = true →
  fits p = true →
  demo.hello [v8.Prim (v8.String (p +:+ String std.nul rest))] w
  = Returns (v8.Prim (v8.String ("hello " +:+ p))) w.
Proof.
  intros Hp Hwf Hfit.
  rewrite hello_String_plain; rewrite (before_nul_app p rest Hp); done.
Qed.

Lemma hello_truncates_at_nul_witness :
  contains_nul "ab" = false
  ∧ well_formed "ab" = true
  ∧ fits "ab" = true
  ∧ demo.hello [v8.Prim (v8.String ("ab" +:+ String std.nul "cd"))] tt
    = Returns (v8.Prim (v8.String "hello ab")) tt.
Proof.
  split_and!; [reflexivity..|].
  apply (@hello_truncates_at_nul unit "ab" "cd" tt); reflexivity.
Defined.

(** C4 as stated fails when the part before the NUL has an unpaired
    surrogate: called with U+D800 (the bytes ED A0 80) and then NUL, a
    string that contains NUL and whose part before it is U+D800, the
    function returns "hello " followed by three times U+FFFD, not by
    U+D800. *)
Lemma hello_lone_surrogate_before_nul :
  contains_nul (String "237" (String "160" (String "128" (String std.nul "")))) = true
  ∧ before_nul (String "237" (String "160" (String "128" (String std.nul ""))))
    = String "237" (String "160" (String "128" ""))
  ∧ demo.hello
      [v8.Prim (v8.String
         (String "237" (String "160" (String "128" (String std.nul "")))))] tt
    = Returns (v8.Prim (v8.String
        ("hello " +:+ Utf8.replaced (Utf8.replaced (Utf8.replaced ""))))) tt
  ∧ demo.hello
      [v8.Prim (v8.String
         (String "237" (String "160" (String "128" (String std.nul "")))))] tt
    ≠ Returns (v8.Prim (v8.String
        ("hello " +:+ String "237" (String "160" (String "128" ""))))) tt.
Proof.
  split_and!; [reflexivity..|]. vm_compute. discriminate.
Qed.


(** C6: called with the empty string, the function returns exactly
    "hello ", the prefix with its trailing space. *)
Theorem hello_empty {W : Type} (w : W) :
  demo.hello [v8.Prim (v8.String "")] w = Returns (v8.Prim (v8.String "hello ")) w.
Proof. by rewrite hello_String. Qed.

(** C7: called with "world", the function returns "hello world". *)
Theorem hello_world {W : Type} (w : W) :
  demo.hello [v8.Prim (v8.String "world")] w
  = Returns (v8.Prim (v8.String "hello world")) w.
Proof. by rewrite hello_String. Qed.



(** C10, as the code has it: when the string conversion of the first
    argument, taken as [undefined] if there is none, yields a text [c]
    whose part before its first NUL has no unpaired surrogate and at
    most [kMaxLength] - 6 bytes, the function returns "hello " followed
    by that part of [c], in the host state the conversion left. *)
Theorem hello_coerces_convertible {W : Type} (argv : list (v8.Value W))
    (c : string) (w w' : W) :
  v8.ToString (default (v8.Prim v8.Undefined) (head argv)) w = Returns (Some c) w' →
  well_formed (before_nul c) = true →
  fits (before_nul c) = true →
  demo.hello argv w
  = Returns (v8.Prim (v8.String ("hello " +:+ before_nul c))) w'.
Proof.
  intros Hc Hwf Hfit.
  by rewrite (hello_converted argv w w' c Hc), Hfit, decode_well_formed.
Qed.

(** A call without arguments returns "hello undefined". *)
Lemma hello_coerces_convertible_witness :
  v8.ToString (default (v8.Prim v8.Undefined) (head [])) tt
  = Returns (Some "undefined") tt
  ∧ well_formed (before_nul "undefined") = true
  ∧ fits (before_nul "undefined") = true
  ∧ demo.hello [] tt = Returns (v8.Prim (v8.String "hello undefined")) tt.
Proof.
  split_and!; [reflexivity..|].
  apply (@hello_coerces_convertible unit [] "undefined" tt tt); reflexivity.
Defined.

(** C10 as stated fails on a Symbol, a non-string argument that has no
    string conversion: the call aborts instead of returning a string. *)
Lemma hello_symbol_aborts :
  demo.hello (W:=unit) [v8.Prim v8.Symbol] tt = Aborts
  ∧ ¬ ∃ (c : string) (w' : unit),
        demo.hello [v8.Prim v8.Symbol] tt
        = Returns (v8.Prim (v8.String ("hello " +:+ c))) w'.
Proof.
  split; [reflexivity|]. intros (c & w' & H). vm_compute in H. discriminate.
Qed.

(** * Further properties of the addon *)

(** ** [Method], on calls of every shape *)

(** X1: every call ends in one of three ways, and never with a
    JavaScript exception.  When the conversion of the first argument (or
    of [undefined], if there is none) yields a text whose part before
    its first NUL has at most [kMaxLength] - 6 bytes, the call returns
    the greeting built from what that part decodes to.  When the
    conversion yields a longer text, or throws, or brings the process
    down, the call aborts.  When the conversion never returns, neither
    does the call. *)
Theorem hello_outcomes {W : Type} (argv : list (v8.Value W)) (w : W) :
  (∃ (c : string) (w' : W),
      v8.ToString (default (v8.Prim v8.Undefined) (head argv)) w = Returns (Some c) w'
      ∧ fits (before_nul c) = true
      ∧ demo.hello argv w
        = Returns (v8.Prim (v8.String ("hello " +:+ Utf8.decode (before_nul c)))) w')
  ∨ (demo.hello argv w = Aborts
     ∧ ((∃ (c : string) (w' : W),
           v8.ToString (default (v8.Prim v8.Undefined) (head argv)) w
           = Returns (Some c) w'
           ∧ fits (before_nul c) = false)
        ∨ (∃ w' : W,
             v8.ToString (default (v8.Prim v8.Undefined) (head argv)) w
             = Returns None w')
        ∨ v8.ToString (default (v8.Prim v8.Undefined) (head argv)) w = Aborts))
  ∨ (demo.hello argv w = Diverges
     ∧ v8.ToString (default (v8.Prim v8.Undefined) (head argv)) w = Diverges).
Proof. apply hello_cases. Qed.

(** X2: only the first argument counts: the arguments after it change
    neither the result nor the effect of the call. *)
Theorem hello_ignores_later_arguments {W : Type} (v : v8.Value W)
    (rest : list (v8.Value W)) (w : W) :
  demo.hello (v :: rest) w = demo.hello [v] w.
Proof.
  destruct (ToString_cases v w) as [([c|] & w' & Hc)|[Hc|Hc]].
  - by rewrite (hello_converted (v :: rest) w w' c), (hello_converted [v] w w' c).
  - by rewrite (hello_unconverted (v :: rest) w w'), (hello_unconverted [v] w w').
  - by rewrite (hello_aborted (v :: rest) w), (hello_aborted [v] w).
  - by rewrite (hello_diverged (v :: rest) w), (hello_diverged [v] w).
Qed.

(** X3: whenever [Method] returns, whatever the call's arguments and
    whatever its return value slot held before, the arguments are as
    they were and the slot holds a string that starts with "hello ". *)
Theorem Method_frame {W : Type} (args info' : v8.FunctionCallbackInfo W) (w w' : W) :
  demo.Method args w = Returns info' w' →
  v8.values_ info' = v8.values_ args
  ∧ ∃ t : string, v8.return_value info' = v8.Prim (v8.String ("hello " +:+ t)).
Proof.
  destruct (ToString_cases (v8.at_ args 0) w) as [([c|] & w1 & Hc)|[Hc|Hc]].
  - rewrite (Method_converted _ w w1 c Hc).
    destruct (fits (before_nul c)); [|done]. intros [= <- _]. by eauto.
  - by rewrite (Method_unconverted _ w w1 Hc).
  - by rewrite (Method_aborted _ w Hc).
  - by rewrite (Method_diverged _ w Hc).
Qed.

Lemma Method_frame_witness :
  demo.Method (W:=unit)
    {| v8.values_ := [v8.Prim (v8.Number "7"); v8.Prim v8.Null];
       v8.return_value := v8.Prim (v8.Boolean true) |} tt
  = Returns {| v8.values_ := [v8.Prim (v8.Number "7"); v8.Prim v8.Null];
               v8.return_value := v8.Prim (v8.String "hello 7") |} tt
  ∧ ([v8.Prim (W:=unit) (v8.Number "7"); v8.Prim v8.Null]
     = [v8.Prim (v8.Number "7"); v8.Prim v8.Null]
     ∧ ∃ t : string,
         v8.Prim (W:=unit) (v8.String "hello 7") = v8.Prim (v8.String ("hello " +:+ t))).
Proof.
  split; [reflexivity|].
  apply (@Method_frame unit
           {| v8.values_ := [v8.Prim (v8.Number "7"); v8.Prim v8.Null];
              v8.return_value := v8.Prim (v8.Boolean true) |}
           {| v8.values_ := [v8.Prim (v8.Number "7"); v8.Prim v8.Null];
              v8.return_value := v8.Prim (v8.String "hello 7") |} tt tt).
  reflexivity.
Defined.

(** X4: whatever the arguments, a value the function returns is a string
    made of "hello " and a text without any NUL character. *)
Theorem hello_result_shape {W : Type} (argv : list (v8.Value W)) (w w' : W)
    (r : v8.Value W) :
  demo.hello argv w = Returns r w' →
  ∃ t : string, r = v8.Prim (v8.String ("hello " +:+ t)) ∧ contains_nul t = false.
Proof.
  intros (c & ->)%hello_returned. eexists. split; [done|].
  apply decode_nul_free, before_nul_clean.
Qed.

Lemma hello_result_shape_witness :
  demo.hello [v8.Prim (v8.String ("ab" +:+ String std.nul "cd"))] tt
  = Returns (v8.Prim (v8.String "hello ab")) tt
  ∧ ∃ t : string,
      v8.Prim (v8.String "hello ab") = v8.Prim (W:=unit) (v8.String ("hello " +:+ t))
      ∧ contains_nul t = false.
Proof.
  split; [reflexivity|].
  apply (@hello_result_shape unit
           [v8.Prim (v8.String ("ab" +:+ String std.nul "cd"))] tt tt
           (v8.Prim (v8.String "hello ab"))).
  reflexivity.
Defined.

(** X12: whatever the arguments, the text of a string the function
    returns is well-formed UTF-8: the string has no unpaired surrogate,
    even when the argument had some. *)
Theorem hello_result_well_formed {W : Type} (argv : list (v8.Value W)) (w w' : W)
    (t : string) :
  demo.hello argv w = Returns (v8.Prim (v8.String t)) w' →
  well_formed t = true.
Proof.
  intros (c & [= ->])%hello_returned.
  change (well_formed (Utf8.decode (before_nul c)) = true).
  apply decode_is_well_formed.
Qed.

Lemma hello_result_well_formed_witness :
  demo.hello [v8.Prim (v8.String (String "237" (String "160" (String "128" ""))))] tt
  = Returns (v8.Prim (v8.String
      ("hello " +:+ Utf8.replaced (Utf8.replaced (Utf8.replaced ""))))) tt
  ∧ well_formed ("hello " +:+ Utf8.replaced (Utf8.replaced (Utf8.replaced ""))) = true.
Proof.
  split; [reflexivity|].
  apply (@hello_result_well_formed unit
           [v8.Prim (v8.String (String "237" (String "160" (String "128" ""))))]
           tt tt).
  reflexivity.
Defined.

(** ** [Method], on strings *)

(** X5: whatever follows a NUL in the input has no influence on the result:
    two inputs that agree up to and including a NUL are greeted alike. *)
Theorem hello_ignores_text_after_nul {W : Type} (p rest1 rest2 : string) (w : W) :
  demo.hello [v8.Prim (v8.String (p +:+ String std.nul rest1))] w
  = demo.hello [v8.Prim (v8.String (p +:+ String std.nul rest2))] w.
Proof. by rewrite !hello_String, !before_nul_app_nul. Qed.

(** X6: on strings without NUL and without unpaired surrogate the
    function loses nothing: when the greeting for one such string is in
    the limit of length, another such string with the same outcome is
    the same string. *)
Theorem hello_injective_nul_free {W : Type} (s1 s2 : string) (w : W) :
  contains_nul s1 = false →
  contains_nul s2 = false →
  well_formed s1 = true →
  well_formed s2 = true →
  fits s1 = true →
  demo.hello [v8.Prim (v8.String s1)] w = demo.hello [v8.Prim (v8.String s2)] w →
  s1 = s2.
Proof.
  intros H1 H2 Hwf1 Hwf2 Hfit.
  rewrite !hello_String, !before_nul_id, !decode_well_formed, Hfit by done.
  destruct (fits s2); [|done].
  intros Heq. injection Heq as Heq. exact Heq.
Qed.

Lemma hello_injective_nul_free_witness :
  contains_nul "node" = false
  ∧ contains_nul ("no" +:+ "de") = false
  ∧ well_formed "node" = true
  ∧ well_formed ("no" +:+ "de") = true
  ∧ fits "node" = true
  ∧ demo.hello [v8.Prim (v8.String "node")] tt
    = demo.hello [v8.Prim (v8.String ("no" +:+ "de"))] tt
  ∧ "node" = "no" +:+ "de".
Proof.
  split_and!; [reflexivity..|].
  apply (@hello_injective_nul_free unit "node" ("no" +:+ "de") tt); reflexivity.
Defined.

(** X8: greeting a greeting: a string the function returned can be
    passed back to it, and then, as long as the second greeting is in
    the limit of length, nothing is cut or replaced; the second result
    is "hello " followed by the whole first result. *)
Theorem hello_twice {W : Type} (argv : list (v8.Value W)) (w w' : W) (t : string) :
  demo.hello argv w = Returns (v8.Prim (v8.String t)) w' →
  fits t = true →
  demo.hello [v8.Prim (v8.String t)] w'
  = Returns (v8.Prim (v8.String ("hello " +:+ t))) w'.
Proof.
  intros (c & [= ->])%hello_returned Hfit.
  pose proof (decode_nul_free _ (before_nul_clean c)) as Hnul.
  pose proof (decode_is_well_formed (before_nul c)) as Hwf.
  set (u := Utf8.decode (before_nul c)) in *.
  assert (contains_nul ("hello " +:+ u) = false) as Ht
    by (by rewrite contains_nul_app, Hnul).
  rewrite hello_String_plain; rewrite (before_nul_id _ Ht); done.
Qed.

Lemma hello_twice_witness :
  demo.hello [v8.Prim (v8.String ("ab" +:+ String std.nul "cd"))] tt
  = Returns (v8.Prim (v8.String "hello ab")) tt
  ∧ fits "hello ab" = true
  ∧ demo.hello [v8.Prim (v8.String "hello ab")] tt
    = Returns (v8.Prim (v8.String "hello hello ab")) tt.
Proof.
  split_and!; [reflexivity..|].
  apply (@hello_twice unit
           [v8.Prim (v8.String ("ab" +:+ String std.nul "cd"))] tt tt "hello ab");
    reflexivity.
Defined.

(** ** [Method], on objects *)

(** X9: an object argument is converted once: when its conversion, run
    in the host state of the call, yields a primitive that has the text
    [c] and leaves the host in state [w'], and the part of [c] before
    its first NUL has at most [kMaxLength] - 6 bytes, the call returns
    the greeting for what that part decodes to, in that same state
    [w']. *)
Theorem hello_converts_object_once {W : Type}
    (ToPrimitive : W → Outcome (W:=W) v8.Primitive) (p : v8.Primitive)
    (c : string) (w w' : W) :
  ToPrimitive w = Returns p w' →
  v8.PrimitiveToString p = Some c →
  fits (before_nul c) = true →
  demo.hello [v8.Object ToPrimitive] w
  = Returns (v8.Prim (v8.String ("hello " +:+ Utf8.decode (before_nul c)))) w'.
Proof.
  intros Hconv Hp Hfit.
  rewrite (hello_converted _ w w' c), Hfit; [done|].
  simpl. by rewrite Hconv, Hp.
Qed.

Lemma hello_converts_object_once_witness :
  (λ n : nat, Returns (v8.String "obj") (S n)) 4 = Returns (v8.String "obj") 5
  ∧ v8.PrimitiveToString (v8.String "obj") = Some "obj"
  ∧ fits (before_nul "obj") = true
  ∧ demo.hello [v8.Object (λ n : nat, Returns (v8.String "obj") (S n))] 4
    = Returns (v8.Prim (v8.String "hello obj")) 5.
Proof.
  split_and!; [reflexivity..|].
  apply (@hello_converts_object_once nat
           (λ n : nat, Returns (v8.String "obj") (S n))
           (v8.String "obj") "obj" 4 5); reflexivity.
Defined.
